(** * The frontmatter script of the Vue documentation site

    The only program of the repository is the shell script that walks
    [src/content/docs/vue], and prepends a generated frontmatter block to
    every [.md] / [.mdx] file in which [grep -q "^---"] finds nothing.

    The script is embedded shallowly:
    - text (file names, file contents, the generated block) is [string];
    - a path is the list of its components below the directory the script
      is started in; the file system is a finite map from the paths of the
      regular files to their contents, and a directory is a path with a
      file below it;
    - the commands of the loop body ([read], [>], [>>], [cat], [mv],
      [grep -q]) are functions on that map, with their failures: a
      redirection to a directory, a path that does not resolve, a [mv]
      that is refused; the loop threads the map and the standard output
      through the paths printed by [find].

    The sed classes [[a-z]] and [\U] are the ASCII ones. A name with a
    newline is printed by [find] over two lines, which the model of
    [find] does not follow: every statement about a run of the loop is
    made for trees whose selected paths are plain ([plain_names]), or at
    a given tree without such a name. *)

From Stdlib Require Import Ascii.
From stdpp Require Import gmap strings list fin_maps.

(** ** Text utilities of the pipeline *)

Module Text.

Definition hyphen : ascii := "-"%char.
Definition dot : ascii := "."%char.
Definition LF : ascii := "010"%char.
Definition NUL : ascii := "000"%char.
Definition backslash : ascii := "092"%char.
Definition slash : ascii := "/"%char.

(** [[a-z]] *)
Definition is_lower (c : ascii) : bool :=
  let n := nat_of_ascii c in (97 <=? n)%nat && (n <=? 122)%nat.

(** [\U] on one character matched by [[a-z]]; other characters are
    never passed to it by the script, and are returned as they are. *)
Definition upper (c : ascii) : ascii :=
  if is_lower c then ascii_of_nat (nat_of_ascii c - 32) else c.

Fixpoint has_dot (s : string) : bool :=
  match s with
  | EmptyString => false
  | String c r => Ascii.eqb c dot || has_dot r
  end.

(** [sed 's/\.[^.]*$//']: the last dot and what follows it are removed;
    a name without a dot is unchanged. *)
Fixpoint strip_ext (s : string) : string :=
  match s with
  | EmptyString => EmptyString
  | String c r =>
      if Ascii.eqb c dot && negb (has_dot r) then EmptyString
      else String c (strip_ext r)
  end.

(** The scan of [sed -r 's/(^|-)([a-z])/\U\2/g'] past the first column:
    there only the alternative [-] of the group can match, so a hyphen
    followed by a lowercase letter is replaced, both characters together,
    by the uppercase letter; every other character is copied. *)
Fixpoint cap (s : string) : string :=
  match s with
  | EmptyString => EmptyString
  | String c r =>
      if Ascii.eqb c hyphen then
        match r with
        | String d r' =>
            if is_lower d then String (upper d) (cap r')
            else String c (cap r)
        | EmptyString => String c EmptyString
        end
      else String c (cap r)
  end.

(** [sed -r 's/(^|-)([a-z])/\U\2/g']: in the first column the
    alternative [^] also matches. *)
Definition sed_capitalize (s : string) : string :=
  match s with
  | String c r => if is_lower c then String (upper c) (cap r) else cap s
  | EmptyString => EmptyString
  end.

(** [sed 's/-/ /g'] *)
Fixpoint sed_spaces (s : string) : string :=
  match s with
  | EmptyString => EmptyString
  | String c r =>
      String (if Ascii.eqb c hyphen then " "%char else c) (sed_spaces r)
  end.

(** The characters bash's builtin [echo] accepts in an option word. *)
Definition echo_flag (c : ascii) : bool :=
  Ascii.eqb c "n" || Ascii.eqb c "e" || Ascii.eqb c "E".

Fixpoint all_flags (s : string) : bool :=
  match s with
  | EmptyString => true
  | String c r => echo_flag c && all_flags r
  end.

(** [echo "$filename"] prints its argument, unless the argument is an
    option word ([-n], [-e], [-E] and their combinations): then nothing
    but at most a newline reaches the pipe. *)
Definition echo (arg : string) : string :=
  match arg with
  | String c (String d r) =>
      if Ascii.eqb c hyphen && all_flags (String d r) then EmptyString
      else arg
  | _ => arg
  end.

(** The lines of a text, split at LF. *)
Fixpoint lines (s : string) : list string :=
  match s with
  | EmptyString => [EmptyString]
  | String c r =>
      if Ascii.eqb c LF then EmptyString :: lines r
      else match lines r with
           | l :: ls => String c l :: ls
           | [] => [String c EmptyString]
           end
  end.

(** The pieces of a text between the characters that [sep] accepts. *)
Fixpoint split (sep : ascii → bool) (s : string) : list string :=
  match s with
  | EmptyString => [EmptyString]
  | String c r =>
      if sep c then EmptyString :: split sep r
      else match split sep r with
           | l :: ls => String c l :: ls
           | [] => [String c EmptyString]
           end
  end.

(** What ends a line for [grep]: LF, and NUL as well, since GNU grep
    takes a file that holds a NUL as binary and then reads each NUL as
    the end of a line. *)
Definition ends_record (c : ascii) : bool :=
  Ascii.eqb c LF || Ascii.eqb c NUL.

Definition records (content : string) : list string :=
  split ends_record content.

(** [grep -q "^---"] on a text: some line begins with three hyphens. *)
Definition grep_dashes (content : string) : bool :=
  existsb (String.prefix "---") (records content).

(** What [read file], without [-r], assigns from a line without a
    newline: each backslash is dropped and the character after it is
    kept as it is. (No space or tab stands at the ends of a line of
    [find], which begins with [./] and ends with [md] or [mdx].) *)
Fixpoint read_line (s : string) : string :=
  match s with
  | EmptyString => EmptyString
  | String c r =>
      if Ascii.eqb c backslash then
        match r with
        | String d r' => String d (read_line r')
        | EmptyString => EmptyString
        end
      else String c (read_line r)
  end.

(** The components of a path given as text. *)
Definition split_path (s : string) : list string :=
  split (Ascii.eqb slash) s.

Definition ends_with (suffix s : string) : bool :=
  let n := String.length s in
  let m := String.length suffix in
  (m <=? n)%nat && String.eqb (String.substring (n - m) m s) suffix.

End Text.

Import Text.

(** ** The file system and the commands of the loop body *)

Abbreviation path := (list string).

(** The directory of [cd src/content/docs/vue], and the scratch file of
    the loop body. *)
Definition docs_dir : path := ["src"; "content"; "docs"; "vue"].
Definition temp_file : string := "temp_file".

(** What the script can observe of the machine: whether the directory of
    the Vue pages can be entered, and the regular files below the
    directory the script is started in. *)
Record world := World {
  docs_present : bool;
  files : gmap path string
}.

(** The state threaded through the [while read] loop. *)
Record state := State {
  fs : gmap path string;
  out : list string
}.

Module Sh.

(** The paths of the regular files. *)
Definition keys (m : gmap path string) : list path := (map_to_list m).*1.

(** The part of [p] below [dir], when [p] lies below [dir]. *)
Fixpoint below (dir p : path) : option path :=
  match dir, p with
  | [], _ => Some p
  | d :: dir', x :: p' => if String.eqb d x then below dir' p' else None
  | _ :: _, [] => None
  end.

(** [p] is [q] or a directory above [q]. *)
Definition is_prefix (p q : path) : bool :=
  match below p q with
  | Some _ => true
  | None => false
  end.

Definition proper_below (dir p : path) : bool :=
  match below dir p with
  | Some (_ :: _) => true
  | _ => false
  end.

(** A directory of the tree: a path with a regular file below it. *)
Definition is_dir (p : path) (m : gmap path string) : bool :=
  existsb (proper_below p) (keys m).

(** The directories a path may go through: those of the tree, and the
    working directory with the directories above it. *)
Definition dir_at (cwd p : path) (m : gmap path string) : bool :=
  is_prefix p cwd || is_dir p m.

(** The directory above; the top of the tree is its own parent, as the
    root directory is (no plain path holds [..]). *)
Definition parent (p : path) : path := removelast p.

(** The file a path names, from the directory [cur]: an empty component
    and [.] stay in place, [..] goes up, and a name that is not the last
    one has to be a directory; otherwise the path names nothing. *)
Fixpoint walk (cwd : path) (m : gmap path string) (cur : path)
  (parts : list string) : option path :=
  match parts with
  | [] => Some cur
  | n :: rest =>
      if String.eqb n "" || String.eqb n "." then walk cwd m cur rest
      else if String.eqb n ".." then walk cwd m (parent cur) rest
      else match rest with
           | [] => Some (cur ++ [n])
           | _ :: _ =>
               if dir_at cwd (cur ++ [n]) m then walk cwd m (cur ++ [n]) rest
               else None
           end
  end.

(** What [cat "$file" >> out] hands to the redirection: the content of
    a regular file; a directory, a missing file, a path that names
    nothing and the output file itself are errors, and print nothing. *)
Definition cat (file : option path) (output : path)
  (m : gmap path string) : string :=
  match file with
  | Some p => if decide (p = output) then EmptyString
              else default EmptyString (m !! p)
  | None => EmptyString
  end.

(** [... > p]: refused when [p] is a directory. *)
Definition redirect (p : path) (text : string) (m : gmap path string)
  : gmap path string :=
  if is_dir p m then m else <[p := text]> m.

(** [... >> p]: refused when [p] is a directory. *)
Definition redirect_append (p : path) (text : string)
  (m : gmap path string) : gmap path string :=
  if is_dir p m then m
  else <[p := default EmptyString (m !! p) +:+ text]> m.

(** [basename] *)
Definition basename (p : path) : string := default EmptyString (last p).

(** The files of the directory [src] put below [dst]. *)
Definition rename_dir (src dst : path) (m : gmap path string)
  : gmap path string :=
  list_to_map
    ((λ kc : path * string,
        (match below src kc.1 with
         | Some t => dst ++ t
         | None => kc.1
         end, kc.2)) <$> map_to_list m).

(** [mv src "$file"]. A regular file replaces a regular file, takes a
    free name, or goes into a directory under its own name unless a
    directory has that name. A directory takes a free name, or goes into
    a directory where its name is free; it replaces no file and does not
    go below itself. A path that names nothing is an error. *)
Definition mv (src : path) (file : option path) (m : gmap path string)
  : gmap path string :=
  match file with
  | None => m
  | Some d =>
      if is_dir src m then
        if is_prefix src d then m
        else if is_dir d m then
          let t := d ++ [basename src] in
          if bool_decide (is_Some (m !! t)) || is_dir t m then m
          else rename_dir src t m
        else if bool_decide (is_Some (m !! d)) then m
        else rename_dir src d m
      else
        match m !! src with
        | None => m
        | Some c =>
            if decide (d = src) then m
            else if is_dir d m then
              let t := d ++ [basename src] in
              if is_dir t m then m else <[t := c]> (delete src m)
            else <[d := c]> (delete src m)
        end
  end.

(** The exit status of [grep -q "^---" p] is zero: an unreadable file
    gives a non-zero status like a file without a match. *)
Definition grep_q (p : path) (m : gmap path string) : bool :=
  match m !! p with
  | Some c => grep_dashes c
  | None => false
  end.

(** [grep -q "^---" "$file"]: a path that names nothing is an error,
    with a non-zero status. *)
Definition grep_file (file : option path) (m : gmap path string) : bool :=
  match file with
  | Some p => grep_q p m
  | None => false
  end.

(** How a path below the working directory is printed by [find .]. *)
Definition show (rel : path) : string := "./" +:+ String.concat "/" rel.

(** [-name "*.md" -o -name "*.mdx"] *)
Definition name_matches (name : string) : bool :=
  ends_with ".md" name || ends_with ".mdx" name.

Definition select (cwd p : path) : option path :=
  match below cwd p with
  | Some rel => if name_matches (basename rel) then Some rel else None
  | None => None
  end.

(** [find . -type f \( -name "*.md" -o -name "*.mdx" \)] run in [cwd]:
    the paths, relative to [cwd], of the regular files below it whose
    name matches, each printed on a line. A path with a newline in a
    name takes two lines of the real output; it is one entry here, and
    [plain_names] keeps such paths out of the statements about runs. *)
Definition find (cwd : path) (m : gmap path string) : list path :=
  omap (select cwd) (map_to_list m).*1.

End Sh.

Import Sh.

(** ** The script *)

(** [filename=$(basename "$file" | sed 's/\.[^.]*$//')] *)
Definition filename_of (file : path) : string := strip_ext (basename file).

(** [title=$(echo "$filename" | sed -r 's/(^|-)([a-z])/\U\2/g' | sed 's/-/ /g')] *)
Definition title_of (filename : string) : string :=
  sed_spaces (sed_capitalize (echo filename)).

Definition nl : string := String LF EmptyString.

(** The text of the [echo "---..."] that fills [temp_file]: the quoted
    text ends with a newline and [echo] adds its own. *)
Definition frontmatter (title : string) : string :=
  "---" +:+ nl +:+
  "title: " +:+ title +:+ nl +:+
  "description: Learn about " +:+ title +:+ " in Vue.js" +:+ nl +:+
  "---" +:+ nl +:+
  nl +:+
  "# " +:+ title +:+ nl +:+
  nl +:+
  "Content for " +:+ title +:+ " goes here." +:+ nl +:+
  nl.

(** One turn of the loop, run in the directory [cwd] on the path [file]
    that [find] printed: [read] takes the printed line, and every command
    of the body works on the text [read] assigned. *)
Definition body (cwd : path) (st : state) (file : path) : state :=
  let line := read_line (show file) in
  let parts := split_path line in
  let filename := filename_of parts in
  let title := title_of filename in
  let target := walk cwd (fs st) cwd parts in
  if negb (grep_file target (fs st)) then
    let tmp := cwd ++ [temp_file] in
    let m1 := redirect tmp (frontmatter title) (fs st) in
    let m2 := redirect_append tmp (cat target tmp m1) m1 in
    let m3 := mv tmp target m2 in
    State m3 (out st ++ ["Added frontmatter to " +:+ line])
  else st.

(** [cd src/content/docs/vue]: when it fails the script goes on in the
    directory it was started in. *)
Definition cd (w : world) : path :=
  if docs_present w then docs_dir else [].

Definition completed : string :=
  "Completed adding frontmatter to Vue documentation files".

(** The whole script: the machine it leaves and the lines it prints. *)
Definition script (w : world) : world * list string :=
  let cwd := cd w in
  let st := foldl (body cwd) (State (files w) []) (find cwd (files w)) in
  (World (docs_present w) (fs st), out st ++ [completed]).

Definition run (w : world) : world := (script w).1.

(** The title the script gives to a file of that name. *)
Definition title_of_file (name : string) : string :=
  title_of (strip_ext name).

(** What a turn of the loop leaves in a file that held [c]. *)
Definition stamped (file : path) (c : string) : string :=
  if grep_dashes c then c
  else frontmatter (title_of (filename_of file)) +:+ c.

(** The scratch file of a run in [cwd]. *)
Definition scratch (cwd : path) : path := cwd ++ [temp_file].

(** ** The loop when no command fails

    On a page that exists under the name [find] printed, and with the
    name [temp_file] free or taken by a regular file, every command of
    the body succeeds; the turn is then the one below. It serves the
    proofs about trees with plain names ([script_plain]). *)

Module Plain.

Definition cat (p : path) (m : gmap path string) : string :=
  default EmptyString (m !! p).

Definition redirect (p : path) (text : string) (m : gmap path string)
  : gmap path string :=
  <[p := text]> m.

Definition redirect_append (p : path) (text : string)
  (m : gmap path string) : gmap path string :=
  <[p := cat p m +:+ text]> m.

Definition mv (src dst : path) (m : gmap path string)
  : gmap path string :=
  match m !! src with
  | Some c => <[dst := c]> (delete src m)
  | None => m
  end.

Definition body (cwd : path) (st : state) (file : path) : state :=
  let filename := filename_of file in
  let title := title_of filename in
  if negb (grep_q (cwd ++ file) (fs st)) then
    let tmp := cwd ++ [temp_file] in
    let m1 := redirect tmp (frontmatter title) (fs st) in
    let m2 := redirect_append tmp (cat (cwd ++ file) m1) m1 in
    let m3 := mv tmp (cwd ++ file) m2 in
    State m3 (out st ++ ["Added frontmatter to " +:+ show file])
  else st.

Definition script (w : world) : world * list string :=
  let cwd := cd w in
  let st := foldl (body cwd) (State (files w) []) (find cwd (files w)) in
  (World (docs_present w) (fs st), out st ++ [completed]).

Definition run (w : world) : world := (script w).1.

End Plain.

(** ** Sample runs *)

Definition docs (rel : path) : path := docs_dir ++ rel.

(** [a.mdx] without frontmatter, [b.md] with it, a text file that is not
    a page, and an empty page. *)
Definition sample : world :=
  World true
    (<[docs ["a.mdx"] := "hello"]>
     (<[docs ["b.md"] :=
          "---" +:+ nl +:+ "title: X" +:+ nl +:+ "---" +:+ nl +:+ "body"]>
     (<[docs ["notes.txt"] := "---" +:+ nl +:+ "kept" +:+ nl]>
     (<[docs ["01_getting-started"; "empty.md"] := ""]> ∅)))).

(** A page without frontmatter that holds a horizontal rule. *)
Definition rule_text : string :=
  "Intro" +:+ nl +:+ "---" +:+ nl +:+ "More" +:+ nl.

Definition rule_page : world :=
  World true {[ docs ["notes.md"] := rule_text ]}.

(** A page whose first line is longer than the delimiter. *)
Definition long_rule_page : world :=
  World true {[ docs ["rule.md"] := "----" +:+ nl +:+ "More" +:+ nl ]}.

(** The script started where [src/content/docs/vue] does not exist. *)
Definition elsewhere : world :=
  World false {[ ["README.md"] := "# Project" +:+ nl ]}.



(** Whether a character occurs in a text. *)
Fixpoint mem_char (x : ascii) (s : string) : bool :=
  match s with
  | EmptyString => false
  | String c r => Ascii.eqb c x || mem_char x r
  end.

(** A word of a kebab-case name: a lowercase letter followed by
    characters other than the hyphen. *)
Definition kebab_word (w : string) : bool :=
  match w with
  | String c r => is_lower c && negb (mem_char hyphen r)
  | EmptyString => false
  end.

(** A word with its first letter in upper case. *)
Definition capitalized (w : string) : string :=
  match w with
  | String c r => String (upper c) r
  | EmptyString => EmptyString
  end.



(** The text of one backslash. *)
Definition bs : string := String backslash EmptyString.






(** An empty page whose name holds a backslash. *)
Definition empty_backslash_page : world :=
  World true {[ docs ["a" +:+ bs +:+ "b.md"] := "" ]}.








(** ** Properties of the title pipeline *)

Section Title.

Lemma append_nil (s : string) : "" +:+ s = s.
Proof. reflexivity. Qed.

Lemma append_cons c (a b : string) : String c a +:+ b = String c (a +:+ b).
Proof. reflexivity. Qed.

Lemma lower_not_hyphen c : is_lower c = true → Ascii.eqb c hyphen = false.
Proof. destruct c as [[] [] [] [] [] [] [] []]; vm_compute; congruence. Qed.

Lemma upper_not_hyphen c :
  is_lower c = true → Ascii.eqb (upper c) hyphen = false.
Proof. destruct c as [[] [] [] [] [] [] [] []]; vm_compute; congruence. Qed.

Lemma cap_cons_plain c s :
  Ascii.eqb c hyphen = false → cap (String c s) = String c (cap s).
Proof. intros H. simpl. by rewrite H. Qed.

Lemma cap_hyphen_lower c s :
  is_lower c = true → cap (String hyphen (String c s)) = String (upper c) (cap s).
Proof. intros H. simpl. by rewrite H. Qed.

Lemma cap_hyphen_other c s :
  is_lower c = false →
  cap (String hyphen (String c s)) = String hyphen (cap (String c s)).
Proof. intros H. cbn [cap]. change (Ascii.eqb hyphen hyphen) with true. by rewrite H. Qed.

(** The scan can be cut in front of any character that is neither a
    lowercase letter nor a hyphen's partner: the part before the cut
    never looks further than that character. *)
Lemma cap_app_sep a x r :
  is_lower x = false →
  cap (a +:+ String x r) = cap a +:+ cap (String x r).
Proof.
  intros Hx.
  assert (∀ n a, (String.length a ≤ n)%nat →
            cap (a +:+ String x r) = cap a +:+ cap (String x r)) as Hn.
  { clear a. induction n as [|n IH]; intros a Hlen.
    - destruct a; [done | simpl in Hlen; lia].
    - destruct a as [|c a]; [done|].
      simpl in Hlen.
      destruct (Ascii.eqb c hyphen) eqn:Hc.
      + apply Ascii.eqb_eq in Hc as ->.
        destruct a as [|d a].
        * rewrite ?append_cons, ?append_nil. rewrite cap_hyphen_other by done. done.
        * rewrite ?append_cons, ?append_nil. destruct (is_lower d) eqn:Hd.
          -- rewrite !cap_hyphen_lower by done.
             rewrite ?append_cons, ?append_nil. f_equal. apply IH. simpl in Hlen. lia.
          -- rewrite !cap_hyphen_other by done.
             rewrite ?append_cons, ?append_nil. f_equal.
             apply (IH (String d a)). lia.
      + rewrite ?append_cons, ?append_nil. rewrite !cap_cons_plain by done.
        rewrite ?append_cons, ?append_nil. f_equal. apply IH. lia. }
  by apply (Hn (String.length a)).
Qed.

Lemma sed_capitalize_app_sep a x r :
  is_lower x = false →
  sed_capitalize (a +:+ String x r) = sed_capitalize a +:+ cap (String x r).
Proof.
  intros Hx. destruct a as [|c a].
  - rewrite ?append_cons, ?append_nil; cbn [sed_capitalize]. by rewrite Hx.
  - rewrite ?append_cons, ?append_nil; cbn [sed_capitalize]. destruct (is_lower c).
    + rewrite ?append_cons, ?append_nil. f_equal. by apply cap_app_sep.
    + by apply (cap_app_sep (String c a)).
Qed.

Lemma sed_spaces_app a b :
  sed_spaces (a +:+ b) = sed_spaces a +:+ sed_spaces b.
Proof. induction a as [|c a IH]; [done|]. rewrite !append_cons. simpl. by rewrite IH. Qed.

Lemma all_flags_underscore a r : all_flags (a +:+ String "_" r) = false.
Proof.
  induction a as [|c a IH]; [done|].
  rewrite ?append_cons, ?append_nil; cbn [all_flags]. rewrite IH. apply andb_false_r.
Qed.

Lemma echo_underscore a r :
  echo (a +:+ String "_" r) = a +:+ String "_" r.
Proof.
  destruct a as [|c a]; [by destruct r|].
  rewrite ?append_cons, ?append_nil. unfold echo.
  destruct (a +:+ String "_" r) as [|d t] eqn:E; [done|].
  rewrite <- E, all_flags_underscore. by rewrite andb_false_r.
Qed.

(** A hyphen in front of a lowercase letter is consumed by the first
    [sed], wherever it stands. *)
Lemma sed_capitalize_hyphen a c b :
  is_lower c = true →
  sed_capitalize (a +:+ String hyphen (String c b))
  = sed_capitalize a +:+ String (upper c) (cap b).
Proof.
  intros Hc. rewrite sed_capitalize_app_sep by done.
  by rewrite cap_hyphen_lower.
Qed.

End Title.

(** C3 (the code departs from the claim). The script turns
    [introduction.md] into the title [Introduction], but it turns
    [quick-start.mdx] into [QuickStart]: the first [sed] removes the
    hyphen together with the letter it capitalizes, so the second [sed]
    finds no hyphen to turn into a space, and the title of the claim,
    [Quick Start], is not produced. *)
Theorem title_of_quick_start :
  title_of_file "quick-start.mdx" = "QuickStart"
  ∧ title_of_file "quick-start.mdx" ≠ "Quick Start"
  ∧ title_of_file "introduction.md" = "Introduction".
Proof. repeat split; [vm_compute; congruence]. Qed.

(** C9. Only hyphens are treated as separators. An underscore of the file
    name is copied to the title: the title of a name with an underscore
    is the converted text before it, the underscore, and the text after
    it scanned from inside a word, so that a lowercase letter [c] that
    follows the underscore stays as it is; [my_file.md] gets the title
    [My_file]. A hyphen in front of a lowercase letter is removed by the
    capitalizing [sed], which leaves the capital letter directly after
    the preceding text, so that the second [sed] puts no space there. *)
Theorem title_keeps_underscore_drops_hyphen (a b : string) (c : ascii) :
  is_lower c = true →
  title_of (a +:+ String "_" b)
    = sed_spaces (sed_capitalize a) +:+ String "_" (sed_spaces (cap b))
  ∧ title_of (a +:+ String "_" (String c b))
    = sed_spaces (sed_capitalize a)
      +:+ String "_" (String c (sed_spaces (cap b)))
  ∧ title_of_file "my_file.md" = "My_file"
  ∧ sed_capitalize (a +:+ String hyphen (String c b))
    = sed_capitalize a +:+ String (upper c) (cap b)
  ∧ sed_spaces (sed_capitalize (a +:+ String hyphen (String c b)))
    = sed_spaces (sed_capitalize a) +:+ String (upper c) (sed_spaces (cap b)).
Proof.
  intros Hc. pose proof (lower_not_hyphen c Hc) as Hh.
  assert (∀ t, title_of (a +:+ String "_" t)
               = sed_spaces (sed_capitalize a)
                 +:+ String "_" (sed_spaces (cap t))) as Hu.
  { intros t. unfold title_of. rewrite echo_underscore.
    rewrite sed_capitalize_app_sep by reflexivity.
    rewrite sed_spaces_app, cap_cons_plain by reflexivity. done. }
  split; [|split; [|split; [|split]]].
  - apply Hu.
  - rewrite Hu, cap_cons_plain by done. cbn [sed_spaces]. by rewrite Hh.
  - reflexivity.
  - by apply sed_capitalize_hyphen.
  - rewrite sed_capitalize_hyphen by done. rewrite sed_spaces_app.
    f_equal. cbn [sed_spaces]. by rewrite upper_not_hyphen.
Qed.

Lemma title_keeps_underscore_drops_hyphen_witness :
  is_lower "f" = true
  ∧ title_of "my_file" = "My_file"
  ∧ sed_capitalize "keep-file" = "KeepFile".
Proof.
  assert (is_lower "f" = true) as H by reflexivity.
  split; [exact H|].
  split.
  - exact (proj1 (title_keeps_underscore_drops_hyphen "my" "file" "f" H)).
  - exact (proj1 (proj2 (proj2 (proj2
      (title_keeps_underscore_drops_hyphen "keep" "ile" "f" H))))).
Defined.

(** ** Further properties of the text pipeline *)

Section TextFacts.

Lemma append_assoc (a b c : string) : (a +:+ b) +:+ c = a +:+ b +:+ c.
Proof.
  induction a as [|x a IH]; [done|]. rewrite !append_cons. by rewrite IH.
Qed.

Lemma has_dot_app_dot (s e : string) : has_dot (s +:+ String dot e) = true.
Proof.
  induction s as [|c s IH]; [done|].
  rewrite append_cons. cbn [has_dot]. rewrite IH. apply orb_true_r.
Qed.

Lemma strip_ext_app (s e : string) :
  has_dot e = false → strip_ext (s +:+ String dot e) = s.
Proof.
  intros He. induction s as [|c s IH].
  - rewrite append_nil. cbn [strip_ext]. by rewrite He.
  - rewrite append_cons. cbn [strip_ext].
    rewrite has_dot_app_dot, andb_false_r. by rewrite IH.
Qed.

Lemma strip_ext_no_dot (s : string) : has_dot s = false → strip_ext s = s.
Proof.
  induction s as [|c s IH]; [done|]. cbn [has_dot strip_ext].
  intros [Hc Hs]%orb_false_iff. rewrite Hc. cbn. by rewrite IH.
Qed.

Lemma cap_no_hyphen (s : string) : mem_char hyphen s = false → cap s = s.
Proof.
  induction s as [|c s IH]; [done|]. cbn [mem_char].
  intros [Hc Hs]%orb_false_iff. rewrite cap_cons_plain by done.
  by rewrite IH.
Qed.

Lemma sed_spaces_no_hyphen (s : string) :
  mem_char hyphen s = false → sed_spaces s = s.
Proof.
  induction s as [|c s IH]; [done|]. cbn [mem_char sed_spaces].
  intros [Hc Hs]%orb_false_iff. rewrite Hc. by rewrite IH.
Qed.

Lemma sed_spaces_hyphen_free (s : string) :
  mem_char hyphen (sed_spaces s) = false.
Proof.
  induction s as [|c s IH]; [done|]. cbn [sed_spaces mem_char].
  rewrite IH, orb_false_r.
  destruct (Ascii.eqb c hyphen) eqn:E; [reflexivity | done].
Qed.

Lemma upper_not_lower c : is_lower (upper c) = false.
Proof. destruct c as [[] [] [] [] [] [] [] []]; reflexivity. Qed.

Lemma echo_plain_first c (s : string) :
  Ascii.eqb c hyphen = false → echo (String c s) = String c s.
Proof. intros H. unfold echo. destruct s; [done|]. by rewrite H. Qed.

Lemma sed_spaces_head c d (s t : string) :
  sed_spaces (String c s) = String d t →
  d = (if Ascii.eqb c hyphen then " "%char else c).
Proof. cbn [sed_spaces]. by intros [= <- _]. Qed.

Lemma cap_head_not_lower c d (s t : string) :
  is_lower c = false →
  sed_spaces (cap (String c s)) = String d t → is_lower d = false.
Proof.
  intros Hc. destruct (Ascii.eqb c hyphen) eqn:E.
  - apply Ascii.eqb_eq in E as ->. destruct s as [|x s].
    + intros [= <- _]. reflexivity.
    + destruct (is_lower x) eqn:Hx.
      * rewrite cap_hyphen_lower by done.
        intros ->%sed_spaces_head.
        rewrite upper_not_hyphen by done. apply upper_not_lower.
      * rewrite cap_hyphen_other by done.
        intros ->%sed_spaces_head. reflexivity.
  - rewrite cap_cons_plain by done.
    intros ->%sed_spaces_head. by rewrite E.
Qed.

End TextFacts.

(** X11. The title of a file depends on its name without the extension
    only: whatever the directories above it, a file named as a text
    followed by [.md] or by [.mdx] gets the title the pipeline gives to
    that text; more generally [sed 's/\.[^.]*$//'] removes a last part
    that starts with a dot and holds no other dot. *)
Theorem title_ignores_extension_and_directory
  (dir : path) (s e : string) :
  has_dot e = false →
  strip_ext (s +:+ String dot e) = s
  ∧ title_of (filename_of (dir ++ [s +:+ ".md"])) = title_of s
  ∧ title_of (filename_of (dir ++ [s +:+ ".mdx"])) = title_of s.
Proof.
  intros He. split; [by apply strip_ext_app|].
  unfold filename_of, basename. rewrite !last_snoc. cbn [default].
  split; f_equal; by apply (strip_ext_app s).
Qed.

Lemma title_ignores_extension_and_directory_witness :
  has_dot "mdx" = false
  ∧ strip_ext "reactivity-in-depth.mdx" = "reactivity-in-depth"
  ∧ title_of (filename_of ["09_extra-topics"; "rendering-mechanism.md"])
    = title_of "rendering-mechanism".
Proof.
  assert (has_dot "mdx" = false) as H by reflexivity.
  split; [exact H|]. split.
  - exact (proj1 (title_ignores_extension_and_directory
                    [] "reactivity-in-depth" "mdx" H)).
  - exact (proj1 (proj2 (title_ignores_extension_and_directory
                    ["09_extra-topics"] "rendering-mechanism" "mdx" H))).
Defined.

(** X12. No title holds a hyphen: the second [sed] replaces every hyphen
    the first one left. *)
Theorem title_has_no_hyphen (filename : string) :
  mem_char hyphen (title_of filename) = false.
Proof. apply sed_spaces_hyphen_free. Qed.

(** X13. No title begins with a lowercase letter. *)
Theorem title_head_not_lower (filename t : string) (c : ascii) :
  title_of filename = String c t → is_lower c = false.
Proof.
  unfold title_of. destruct (echo filename) as [|x s] eqn:E; [done|].
  unfold sed_capitalize. destruct (is_lower x) eqn:Hx.
  - intros ->%sed_spaces_head.
    rewrite upper_not_hyphen by done. apply upper_not_lower.
  - by apply cap_head_not_lower.
Qed.

Lemma title_head_not_lower_witness :
  title_of "keep-alive" = String "K" "eepAlive" ∧ is_lower "K" = false.
Proof.
  assert (title_of "keep-alive" = String "K" "eepAlive") as H by reflexivity.
  split; [exact H|].
  exact (title_head_not_lower "keep-alive" "eepAlive" "K" H).
Defined.

(** X14. A hyphen is turned into a space exactly where the capitalizing
    [sed] leaves it: in front of a character that is no lowercase letter
    (a digit, a capital, another hyphen), and at the end of the name. *)
Theorem hyphen_before_other_becomes_space (a b : string) (c : ascii) :
  is_lower c = false →
  sed_spaces (sed_capitalize (a +:+ String hyphen (String c b)))
    = sed_spaces (sed_capitalize a)
      +:+ String " " (sed_spaces (cap (String c b)))
  ∧ sed_spaces (sed_capitalize (a +:+ String hyphen ""))
    = sed_spaces (sed_capitalize a) +:+ " ".
Proof.
  intros Hc. split.
  - rewrite sed_capitalize_app_sep by reflexivity.
    rewrite cap_hyphen_other by done. by rewrite sed_spaces_app.
  - rewrite sed_capitalize_app_sep by reflexivity.
    by rewrite sed_spaces_app.
Qed.

Lemma hyphen_before_other_becomes_space_witness :
  is_lower "3" = false ∧ title_of "vue-3-guide" = "Vue 3Guide".
Proof.
  assert (is_lower "3" = false) as H by reflexivity.
  split; [exact H|].
  exact (proj1 (hyphen_before_other_becomes_space "vue" "-guide" "3" H)).
Defined.

(** X15. A name that [echo] reads as an option word (a hyphen followed by
    one or more of the letters [n], [e], [E]) never reaches [sed]: the
    title is empty. *)
Theorem option_word_gives_empty_title (c : ascii) (s : string) :
  all_flags (String c s) = true →
  title_of (String hyphen (String c s)) = "".
Proof. intros H. unfold title_of, echo. by rewrite H. Qed.

Lemma option_word_gives_empty_title_witness :
  all_flags "ne" = true ∧ title_of_file "-ne.md" = "".
Proof.
  assert (all_flags "ne" = true) as H by reflexivity.
  split; [exact H|].
  exact (option_word_gives_empty_title "n" "e" H).
Defined.

(** X16. A name without a hyphen is changed in its first character at
    most: a lowercase first letter becomes its capital, and any other
    name is its own title. *)
Theorem title_without_hyphen (c : ascii) (s : string) :
  mem_char hyphen (String c s) = false →
  title_of (String c s) = String (if is_lower c then upper c else c) s.
Proof.
  cbn [mem_char]. intros [Hc Hs]%orb_false_iff.
  unfold title_of. rewrite echo_plain_first by done.
  unfold sed_capitalize. destruct (is_lower c) eqn:Hl.
  - cbn [sed_spaces]. rewrite (upper_not_hyphen c Hl).
    by rewrite cap_no_hyphen, sed_spaces_no_hyphen.
  - rewrite cap_cons_plain by done. cbn [sed_spaces]. rewrite Hc.
    by rewrite cap_no_hyphen, sed_spaces_no_hyphen.
Qed.

Lemma title_without_hyphen_witness :
  mem_char hyphen "01_intro" = false
  ∧ title_of "01_intro" = "01_intro"
  ∧ title_of "accessibility" = "Accessibility".
Proof.
  assert (mem_char hyphen "01_intro" = false) as H by reflexivity.
  split; [exact H|]. split.
  - exact (title_without_hyphen "0" "1_intro" H).
  - exact (title_without_hyphen "a" "ccessibility" eq_refl).
Defined.

(** ** Lines, the check and the generated block *)

Section LineFacts.

Lemma lines_cons (s : string) : ∃ l ls, lines s = l :: ls.
Proof.
  induction s as [|c s (l & ls & IH)]; [by eexists _, _|].
  cbn [lines]. destruct (Ascii.eqb c LF); [by eexists _, _|].
  rewrite IH. by eexists _, _.
Qed.

Lemma lines_app_nl (a b : string) :
  lines (a +:+ nl +:+ b) = lines a ++ lines b.
Proof.
  induction a as [|c a IH]; [done|].
  rewrite append_cons. cbn [lines]. rewrite IH.
  destruct (Ascii.eqb c LF); [done|].
  by destruct (lines_cons a) as (l & ls & ->).
Qed.

Lemma lines_single (s : string) : mem_char LF s = false → lines s = [s].
Proof.
  induction s as [|c s IH]; [done|]. cbn [mem_char lines].
  intros [Hc Hs]%orb_false_iff. rewrite Hc. by rewrite IH.
Qed.

Lemma lines_line (a b : string) :
  mem_char LF a = false → lines (a +:+ nl +:+ b) = a :: lines b.
Proof. intros Ha. by rewrite lines_app_nl, lines_single. Qed.

Lemma mem_char_app x (a b : string) :
  mem_char x (a +:+ b) = mem_char x a || mem_char x b.
Proof.
  induction a as [|c a IH]; [done|].
  rewrite append_cons. cbn [mem_char]. by rewrite IH, orb_assoc.
Qed.

Lemma prefix_app (p b : string) : String.prefix p (p +:+ b) = true.
Proof.
  induction p as [|c p IH]; [by destruct b|].
  rewrite append_cons. cbn [String.prefix].
  by destruct (ascii_dec c c).
Qed.

Lemma prefix_inv (p s : string) :
  String.prefix p s = true → ∃ b, s = p +:+ b.
Proof.
  revert s. induction p as [|c p IH]; intros s H; [by exists s|].
  destruct s as [|x s]; [done|]. cbn [String.prefix] in H.
  destruct (ascii_dec c x) as [->|]; [|done].
  destruct (IH s H) as [b ->]. by exists b.
Qed.

(** A pattern without LF is a prefix of a text exactly when it is a
    prefix of the first line of the text. *)
Lemma prefix_first_line (p c l : string) (ls : list string) :
  mem_char LF p = false →
  lines c = l :: ls →
  String.prefix p l = String.prefix p c.
Proof.
  revert p l ls. induction c as [|x r IH]; intros p l ls Hp Hl.
  { by injection Hl as <- <-. }
  destruct p as [|a p]; [by destruct l|].
  cbn [mem_char] in Hp. apply orb_false_iff in Hp as [Ha Hp].
  cbn [lines] in Hl. destruct (Ascii.eqb x LF) eqn:Hx.
  - apply Ascii.eqb_eq in Hx as ->. injection Hl as <- <-.
    cbn [String.prefix]. destruct (ascii_dec a LF) as [->|]; [|done].
    by rewrite Ascii.eqb_refl in Ha.
  - destruct (lines_cons r) as (l' & ls' & Hr). rewrite Hr in Hl.
    injection Hl as <- <-. cbn [String.prefix].
    destruct (ascii_dec a x); [|done]. by apply (IH p l' ls').
Qed.

Lemma later_line_inv (c l : string) (ls : list string) :
  lines c = l :: ls →
  existsb (String.prefix "---") ls = true →
  ∃ a b, c = a +:+ nl +:+ "---" +:+ b.
Proof.
  revert l ls. induction c as [|x r IH]; intros l ls Hl Hex.
  { by injection Hl as <- <-. }
  destruct (lines_cons r) as (l' & ls' & Hr).
  cbn [lines] in Hl. rewrite Hr in Hl.
  destruct (Ascii.eqb x LF) eqn:Hx.
  - apply Ascii.eqb_eq in Hx as ->. injection Hl as <- <-.
    cbn [existsb] in Hex. apply orb_true_iff in Hex as [Hp|Hex].
    + rewrite (prefix_first_line "---" r l' ls') in Hp by done.
      apply prefix_inv in Hp as [b ->]. by exists "", b.
    + destruct (IH l' ls' Hr Hex) as (a & b & ->).
      by exists (String LF a), b.
  - injection Hl as <- <-.
    destruct (IH l' ls' Hr Hex) as (a & b & ->).
    by exists (String x a), b.
Qed.

End LineFacts.


(** ** The lines [grep] reads *)

Section Split.

Variable sep : ascii → bool.

Lemma split_cons (s : string) : ∃ l ls, split sep s = l :: ls.
Proof.
  induction s as [|c s (l & ls & IH)]; [by eexists _, _|].
  cbn [split]. destruct (sep c); [by eexists _, _|].
  rewrite IH. by eexists _, _.
Qed.

Lemma split_app_sep (a b : string) (x : ascii) :
  sep x = true →
  split sep (a +:+ String x b) = split sep a ++ split sep b.
Proof.
  intros Hx. induction a as [|c a IH].
  - rewrite append_nil. cbn [split]. by rewrite Hx.
  - rewrite append_cons. cbn [split]. rewrite IH.
    destruct (sep c); [done|].
    by destruct (split_cons a) as (l & ls & ->).
Qed.

(** A pattern none of whose characters ends a piece is a prefix of a
    text exactly when it is a prefix of the first piece. *)
Lemma prefix_first_piece (p c l : string) (ls : list string) :
  (∀ x, sep x = true → mem_char x p = false) →
  split sep c = l :: ls →
  String.prefix p l = String.prefix p c.
Proof.
  revert p l ls. induction c as [|x r IH]; intros p l ls Hp Hl.
  { by injection Hl as <- <-. }
  destruct p as [|a p]; [by destruct l|].
  assert (sep a = false) as Ha.
  { destruct (sep a) eqn:E; [|done].
    specialize (Hp a E). cbn [mem_char] in Hp.
    by rewrite Ascii.eqb_refl in Hp. }
  assert (∀ y, sep y = true → mem_char y p = false) as Hp'.
  { intros y Hy. specialize (Hp y Hy). cbn [mem_char] in Hp.
    by apply orb_false_iff in Hp as [_ ?]. }
  cbn [split] in Hl. destruct (sep x) eqn:Hx.
  - injection Hl as <- <-. cbn [String.prefix].
    destruct (ascii_dec a x) as [->|]; [congruence | done].
  - destruct (split_cons r) as (l' & ls' & Hr). rewrite Hr in Hl.
    injection Hl as <- <-. cbn [String.prefix].
    destruct (ascii_dec a x); [|done]. by apply (IH p l' ls').
Qed.

Lemma later_piece_inv (p c l : string) (ls : list string) :
  (∀ x, sep x = true → mem_char x p = false) →
  split sep c = l :: ls →
  existsb (String.prefix p) ls = true →
  ∃ a x b, sep x = true ∧ c = a +:+ String x (p +:+ b).
Proof.
  intros Hp. revert l ls. induction c as [|x r IH]; intros l ls Hl Hex.
  { by injection Hl as <- <-. }
  destruct (split_cons r) as (l' & ls' & Hr).
  cbn [split] in Hl. rewrite Hr in Hl.
  destruct (sep x) eqn:Hx.
  - injection Hl as <- <-.
    cbn [existsb] in Hex. apply orb_true_iff in Hex as [Hl'|Hex].
    + rewrite (prefix_first_piece p r l' ls') in Hl' by done.
      apply prefix_inv in Hl' as [b ->]. by exists "", x, b.
    + destruct (IH l' ls' Hr Hex) as (a & y & b & Hy & ->).
      by exists (String x a), y, b.
  - injection Hl as <- <-.
    destruct (IH l' ls' Hr Hex) as (a & y & b & Hy & ->).
    by exists (String x a), y, b.
Qed.

Lemma split_dashes_iff (p c : string) :
  (∀ x, sep x = true → mem_char x p = false) →
  existsb (String.prefix p) (split sep c) = true ↔
  String.prefix p c = true
  ∨ ∃ a x b, sep x = true ∧ c = a +:+ String x (p +:+ b).
Proof.
  intros Hp. split.
  - destruct (split_cons c) as (l & ls & Hl). rewrite Hl.
    cbn [existsb]. intros [Hl'|Hex]%orb_true_iff.
    + left. by rewrite <- (prefix_first_piece p c l ls).
    + right. by apply (later_piece_inv p c l ls).
  - intros [Hc|(a & x & b & Hx & ->)].
    + destruct (split_cons c) as (l & ls & Hl). rewrite Hl.
      cbn [existsb]. rewrite (prefix_first_piece p c l ls) by done.
      by rewrite Hc.
    + rewrite split_app_sep, existsb_app by done.
      destruct (split_cons (p +:+ b)) as (l & ls & Hl). rewrite Hl.
      cbn [existsb].
      rewrite (prefix_first_piece p (p +:+ b) l ls) by done.
      rewrite prefix_app. by rewrite orb_true_r.
Qed.

End Split.

Section Records.

Lemma ends_record_iff (x : ascii) :
  ends_record x = true ↔ x = LF ∨ x = NUL.
Proof.
  unfold ends_record. rewrite orb_true_iff.
  by rewrite !Ascii.eqb_eq.
Qed.

Lemma dashes_free (x : ascii) :
  ends_record x = true → mem_char x "---" = false.
Proof. by intros [-> | ->]%ends_record_iff. Qed.



(** A text that begins with three hyphens passes the check. *)
Lemma grep_dashes_prefix (c : string) :
  String.prefix "---" c = true → grep_dashes c = true.
Proof.
  intros H. unfold grep_dashes, records.
  apply split_dashes_iff; [apply dashes_free | by left].
Qed.



End Records.

(** X18. The check of the script in terms of the text of the file:
    [grep -q "^---"] succeeds exactly when the file begins with three
    hyphens, or holds a newline or a NUL that is followed by three
    hyphens. *)
Theorem grep_dashes_iff (c : string) :
  grep_dashes c = true ↔
  String.prefix "---" c = true
  ∨ ∃ a x b, (x = LF ∨ x = NUL) ∧ c = a +:+ String x ("---" +:+ b).
Proof.
  unfold grep_dashes, records.
  rewrite (split_dashes_iff ends_record "---" c dashes_free).
  split; (intros [H|(a & x & b & Hx & ->)]; [by left|]);
    right; exists a, x, b; (split; [by apply ends_record_iff | done]).
Qed.

(** X19. The check goes line by line: a text cut at a newline passes it
    exactly when one of the two parts does. *)
Theorem grep_dashes_app_nl (a b : string) :
  grep_dashes (a +:+ nl +:+ b) = grep_dashes a || grep_dashes b.
Proof.
  unfold grep_dashes, records.
  change (nl +:+ b) with (String LF b).
  by rewrite split_app_sep, existsb_app.
Qed.

(** X2. The layout of a rewritten file, for a title without a newline:
    the delimiter, the title line, the description line, the delimiter,
    an empty line, the heading, an empty line, the placeholder sentence
    and an empty line, and then the lines of the original content. *)
Theorem lines_of_rewritten_file (t c : string) :
  mem_char LF t = false →
  lines (frontmatter t +:+ c)
  = ["---";
     "title: " +:+ t;
     "description: Learn about " +:+ t +:+ " in Vue.js";
     "---";
     "";
     "# " +:+ t;
     "";
     "Content for " +:+ t +:+ " goes here.";
     ""] ++ lines c.
Proof.
  intros Ht.
  assert (frontmatter t +:+ c
          = "---" +:+ nl +:+
            ("title: " +:+ t) +:+ nl +:+
            ("description: Learn about " +:+ t +:+ " in Vue.js") +:+ nl +:+
            "---" +:+ nl +:+
            "" +:+ nl +:+
            ("# " +:+ t) +:+ nl +:+
            "" +:+ nl +:+
            ("Content for " +:+ t +:+ " goes here.") +:+ nl +:+
            "" +:+ nl +:+ c) as ->.
  { unfold frontmatter. by rewrite !append_assoc. }
  repeat (rewrite lines_line by (rewrite ?mem_char_app, ?Ht; reflexivity)).
  reflexivity.
Qed.

Lemma lines_of_rewritten_file_witness :
  mem_char LF "A" = false
  ∧ lines (frontmatter "A" +:+ "hello")
    = ["---"; "title: A"; "description: Learn about A in Vue.js"; "---";
       ""; "# A"; ""; "Content for A goes here."; ""; "hello"].
Proof.
  assert (mem_char LF "A" = false) as H by reflexivity.
  split; [exact H|].
  exact (lines_of_rewritten_file "A" "hello" H).
Defined.

(** ** The selection of [find] *)

Section NameFacts.

Lemma length_app (p s : string) :
  String.length (p +:+ s) = (String.length p + String.length s)%nat.
Proof.
  induction p as [|c p IH]; [done|]. rewrite append_cons. simpl. by rewrite IH.
Qed.

Lemma substring_all (s : string) :
  String.substring 0 (String.length s) s = s.
Proof. induction s as [|c s IH]; [done|]. simpl. by rewrite IH. Qed.

Lemma substring_app (p s : string) :
  String.substring (String.length p) (String.length s) (p +:+ s) = s.
Proof.
  induction p as [|c p IH]; [apply substring_all|].
  rewrite append_cons. exact IH.
Qed.

Lemma substring_split (s : string) (k : nat) :
  (k ≤ String.length s)%nat →
  ∃ p, s = p +:+ String.substring k (String.length s - k) s.
Proof.
  revert k. induction s as [|c s IH]; intros k Hk.
  - exists "". simpl in Hk. by replace k with 0%nat by lia.
  - destruct k as [|k].
    + exists "". rewrite append_nil, Nat.sub_0_r. by rewrite substring_all.
    + simpl in Hk. destruct (IH k) as [p Hp]; [lia|].
      exists (String c p). rewrite append_cons.
      cbn [String.length String.substring Nat.sub]. by rewrite <- Hp.
Qed.

Lemma ends_with_app (p suffix : string) : ends_with suffix (p +:+ suffix) = true.
Proof.
  unfold ends_with. rewrite length_app.
  replace (String.length p + String.length suffix - String.length suffix)%nat
    with (String.length p) by lia.
  rewrite substring_app, String.eqb_refl, andb_true_r.
  apply Nat.leb_le. lia.
Qed.

Lemma ends_with_inv (suffix s : string) :
  ends_with suffix s = true → ∃ p, s = p +:+ suffix.
Proof.
  unfold ends_with. intros [Hle Heq]%andb_true_iff.
  apply Nat.leb_le in Hle. apply String.eqb_eq in Heq.
  destruct (substring_split s (String.length s - String.length suffix))
    as [p Hp]; [lia|].
  exists p. rewrite Hp at 1. f_equal. rewrite <- Heq at 3. f_equal. lia.
Qed.

End NameFacts.

(** X10. [find] selects by the end of the name, and by nothing else: a
    name matches exactly when it is some text, possibly empty, followed
    by [.md] or by [.mdx]. *)
Theorem name_matches_iff (name : string) :
  name_matches name = true ↔
  ∃ s, name = s +:+ ".md" ∨ name = s +:+ ".mdx".
Proof.
  unfold name_matches. rewrite orb_true_iff. split.
  - intros [[s ->]%ends_with_inv|[s ->]%ends_with_inv]; exists s; auto.
  - intros [s [-> | ->]]; [left|right]; apply ends_with_app.
Qed.

(** ** Kebab-case names *)

Section Kebab.

Lemma kebab_word_inv (w : string) :
  kebab_word w = true →
  ∃ c r, w = String c r ∧ is_lower c = true ∧ mem_char hyphen r = false.
Proof.
  destruct w as [|c r]; [done|]. cbn [kebab_word].
  intros [Hc Hr%negb_true_iff]%andb_true_iff. by exists c, r.
Qed.

Lemma concat_cons2 (sep x y : string) (l : list string) :
  String.concat sep (x :: y :: l) = x +:+ sep +:+ String.concat sep (y :: l).
Proof. reflexivity. Qed.

Lemma cap_kebab (ws : list string) :
  forallb kebab_word ws = true → ws ≠ [] →
  cap (String hyphen (String.concat "-" ws))
  = String.concat "" (capitalized <$> ws).
Proof.
  induction ws as [|w ws IH]; [done|]. cbn [forallb].
  intros [(c & r & -> & Hc & Hr)%kebab_word_inv Hws]%andb_true_iff _.
  destruct ws as [|w' ws].
  - cbn [String.concat fmap list_fmap capitalized].
    rewrite cap_hyphen_lower by done. by rewrite cap_no_hyphen.
  - rewrite concat_cons2, append_cons, cap_hyphen_lower by done.
    change ("-" +:+ String.concat "-" (w' :: ws))
      with (String hyphen (String.concat "-" (w' :: ws))).
    rewrite (cap_app_sep r hyphen) by reflexivity.
    rewrite cap_no_hyphen by done.
    rewrite IH by done.
    cbn [fmap list_fmap]. by rewrite concat_cons2.
Qed.

Lemma kebab_hyphen_free (ws : list string) :
  forallb kebab_word ws = true →
  mem_char hyphen (String.concat "" (capitalized <$> ws)) = false.
Proof.
  induction ws as [|w ws IH]; [done|]. cbn [forallb].
  intros [(c & r & -> & Hc & Hr)%kebab_word_inv Hws]%andb_true_iff.
  assert (mem_char hyphen (capitalized (String c r)) = false) as Hw.
  { cbn [capitalized mem_char]. by rewrite upper_not_hyphen, Hr. }
  destruct ws as [|w' ws]; [exact Hw|].
  cbn [fmap list_fmap]. rewrite concat_cons2, append_nil.
  rewrite mem_char_app, Hw. by apply IH.
Qed.

End Kebab.

(** X21. The title of a kebab-case name: for lowercase words joined by
    hyphens the pipeline gives the words with a capital first letter,
    joined with nothing between them. *)
Theorem title_of_kebab_case (ws : list string) :
  forallb kebab_word ws = true →
  title_of (String.concat "-" ws) = String.concat "" (capitalized <$> ws).
Proof.
  intros H. destruct ws as [|w ws]; [done|].
  pose proof (kebab_hyphen_free _ H) as Hfree.
  cbn [forallb] in H.
  apply andb_true_iff in H as [(c & r & -> & Hc & Hr)%kebab_word_inv Hws].
  assert (∃ t, String.concat "-" (String c r :: ws) = String c t
               ∧ String (upper c) (cap t)
                 = String.concat "" (capitalized <$> String c r :: ws))
    as (t & Ht & Hcap).
  { destruct ws as [|w' ws].
    - exists r. split; [done|]. by rewrite cap_no_hyphen.
    - exists (r +:+ "-" +:+ String.concat "-" (w' :: ws)).
      split; [done|].
      change ("-" +:+ String.concat "-" (w' :: ws))
        with (String hyphen (String.concat "-" (w' :: ws))).
      rewrite (cap_app_sep r hyphen) by reflexivity.
      rewrite cap_no_hyphen by done.
      rewrite cap_kebab by done.
      cbn [fmap list_fmap]. by rewrite concat_cons2. }
  unfold title_of. rewrite Ht.
  rewrite echo_plain_first by by apply lower_not_hyphen.
  unfold sed_capitalize. rewrite Hc, Hcap.
  by apply sed_spaces_no_hyphen.
Qed.

Lemma title_of_kebab_case_witness :
  forallb kebab_word ["reactivity"; "in"; "depth"] = true
  ∧ title_of "reactivity-in-depth" = "ReactivityInDepth".
Proof.
  assert (forallb kebab_word ["reactivity"; "in"; "depth"] = true) as H
    by reflexivity.
  split; [exact H|].
  exact (title_of_kebab_case ["reactivity"; "in"; "depth"] H).
Defined.

(** ** The commands of the loop body *)

Section Body.

Variable cwd : path.

Lemma body_skip st file :
  grep_q (cwd ++ file) (fs st) = true → Plain.body cwd st file = st.
Proof. intros H. unfold Plain.body. by rewrite H. Qed.

Lemma body_lookup_file st file c :
  cwd ++ file ≠ scratch cwd →
  fs st !! (cwd ++ file) = Some c →
  fs (Plain.body cwd st file) !! (cwd ++ file) = Some (stamped file c).
Proof.
  intros Hne Hc. unfold Plain.body, stamped, grep_q. rewrite Hc.
  destruct (grep_dashes c); simpl; [done|].
  fold (scratch cwd).
  unfold Plain.mv, Plain.redirect_append, Plain.redirect, Plain.cat.
  rewrite !lookup_insert_eq. simpl.
  rewrite lookup_insert_ne by done. by rewrite Hc.
Qed.


Lemma body_lookup_other st file k :
  k ≠ cwd ++ file → k ≠ scratch cwd →
  fs (Plain.body cwd st file) !! k = fs st !! k.
Proof.
  intros Hk Ht. unfold Plain.body.
  destruct (grep_q (cwd ++ file) (fs st)); simpl; [done|].
  fold (scratch cwd).
  unfold Plain.mv, Plain.redirect_append, Plain.redirect.
  rewrite !lookup_insert_eq.
  rewrite lookup_insert_ne by done.
  rewrite lookup_delete_ne by done.
  rewrite lookup_insert_ne by done.
  by rewrite lookup_insert_ne.
Qed.

(** *** The loop *)

Lemma loop_skip l st :
  (∀ r, r ∈ l → grep_q (cwd ++ r) (fs st) = true) →
  foldl (Plain.body cwd) st l = st.
Proof.
  induction l as [|x l IH]; intros H; [done|].
  simpl. rewrite body_skip by (apply H; left).
  apply IH. intros r Hr. apply H. by right.
Qed.

Lemma loop_lookup_other l st k :
  (∀ r, r ∈ l → k ≠ cwd ++ r) → k ≠ scratch cwd →
  fs (foldl (Plain.body cwd) st l) !! k = fs st !! k.
Proof.
  revert st. induction l as [|x l IH]; intros st H Ht; [done|].
  simpl. rewrite IH; [|intros r Hr; apply H; by right|done].
  apply body_lookup_other; [apply H; left|done].
Qed.

Lemma loop_lookup_file l st r c :
  NoDup l →
  (∀ x, x ∈ l → cwd ++ x ≠ scratch cwd) →
  r ∈ l →
  fs st !! (cwd ++ r) = Some c →
  fs (foldl (Plain.body cwd) st l) !! (cwd ++ r) = Some (stamped r c).
Proof.
  revert st. induction l as [|x l IH]; intros st Hnd Hs Hr Hc.
  { by apply elem_of_nil in Hr. }
  apply NoDup_cons in Hnd as [Hx Hnd]. simpl.
  destruct (decide (r = x)) as [->|Hrx].
  - rewrite loop_lookup_other.
    + apply body_lookup_file; [apply Hs; left|done].
    + intros y Hy E. apply app_inv_head in E. by subst.
    + apply Hs. left.
  - apply elem_of_cons in Hr as [?|Hr]; [done|].
    apply IH; [done|intros y Hy; apply Hs; by right|done|].
    rewrite body_lookup_other; [done| |apply Hs; by right].
    intros E. by apply app_inv_head in E.
Qed.

End Body.

(** ** The traversal *)

Section Find.

Lemma below_Some (dir p rel : path) : below dir p = Some rel ↔ p = dir ++ rel.
Proof.
  revert p. induction dir as [|d dir IH]; intros p; simpl.
  - split; congruence.
  - destruct p as [|x p]; [split; [done | intros [=]]|].
    destruct (String.eqb d x) eqn:E.
    + apply String.eqb_eq in E as ->. rewrite IH. split; congruence.
    + apply String.eqb_neq in E. split; [done | congruence].
Qed.

Lemma below_app (dir rel : path) : below dir (dir ++ rel) = Some rel.
Proof. by apply below_Some. Qed.

Lemma select_Some (cwd p rel : path) :
  select cwd p = Some rel ↔
  p = cwd ++ rel ∧ name_matches (basename rel) = true.
Proof.
  unfold select. destruct (below cwd p) as [r|] eqn:E.
  - apply below_Some in E as ->.
    destruct (name_matches (basename r)) eqn:Hm.
    + split; [intros [= <-]; done | intros [H%app_inv_head _]; congruence].
    + split; [done | intros [H%app_inv_head ?]; congruence].
  - split; [done | intros [-> _]]. by rewrite below_app in E.
Qed.

Lemma elem_of_find (cwd : path) (m : gmap path string) (rel : path) :
  rel ∈ find cwd m ↔
  is_Some (m !! (cwd ++ rel)) ∧ name_matches (basename rel) = true.
Proof.
  unfold find. rewrite list_elem_of_omap. split.
  - intros (p & Hp & Hsel). apply select_Some in Hsel as [-> Hm].
    split; [|done].
    apply list_elem_of_fmap in Hp as ([k c] & Hk & Hin).
    simpl in Hk; subst k. apply elem_of_map_to_list in Hin. eauto.
  - intros [[c Hc] Hm]. exists (cwd ++ rel). split.
    + apply list_elem_of_fmap. exists (cwd ++ rel, c).
      split; [done|]. by apply elem_of_map_to_list.
    + by apply select_Some.
Qed.

Lemma NoDup_omap_inj {A B} (f : A → option B) (l : list A) :
  (∀ x y z, f x = Some z → f y = Some z → x = y) →
  NoDup l → NoDup (omap f l).
Proof.
  intros Hinj. induction 1 as [|x l Hx Hnd IH]; simpl; [constructor|].
  destruct (f x) as [z|] eqn:E; [|done].
  constructor; [|done].
  intros (y & Hy & Hfy)%list_elem_of_omap.
  by rewrite (Hinj _ _ _ E Hfy) in Hx.
Qed.

Lemma NoDup_find (cwd : path) (m : gmap path string) : NoDup (find cwd m).
Proof.
  apply NoDup_omap_inj; [|apply NoDup_fst_map_to_list].
  intros x y z [-> _]%select_Some [-> _]%select_Some. done.
Qed.


Lemma matches_not_scratch (cwd rel : path) :
  name_matches (basename rel) = true → cwd ++ rel ≠ scratch cwd.
Proof.
  intros H E. apply app_inv_head in E. subst rel. by vm_compute in H.
Qed.

Lemma find_not_scratch (cwd : path) (m : gmap path string) (rel : path) :
  rel ∈ find cwd m → cwd ++ rel ≠ scratch cwd.
Proof. intros [_ H]%elem_of_find. by apply matches_not_scratch. Qed.

End Find.

(** ** The run *)

Section Run.



Lemma cd_run w : cd (Plain.run w) = cd w.
Proof. reflexivity. Qed.

(** A file printed by [find] ends as the loop body leaves it. *)
Lemma run_lookup_found w rel c :
  name_matches (basename rel) = true →
  files w !! (cd w ++ rel) = Some c →
  files (Plain.run w) !! (cd w ++ rel) = Some (stamped rel c).
Proof.
  intros Hm Hc. unfold Plain.run, Plain.script. simpl.
  apply loop_lookup_file; [apply NoDup_find| |by apply elem_of_find|done].
  intros x. apply find_not_scratch.
Qed.



End Run.

(** ** What a run does to the files *)

Section Frame.



Lemma stamped_unmarked (file : path) (c : string) :
  grep_dashes c = false →
  stamped file c = frontmatter (title_of (filename_of file)) +:+ c.
Proof. intros H. unfold stamped. by rewrite H. Qed.


(** A page below the working directory without such a line gets the
    generated block in front of its content. *)
Lemma run_adds_frontmatter (w : world) (rel : path) (c : string) :
  name_matches (basename rel) = true →
  files w !! (cd w ++ rel) = Some c →
  grep_dashes c = false →
  files (Plain.run w) !! (cd w ++ rel)
  = Some (frontmatter (title_of (filename_of rel)) +:+ c).
Proof.
  intros Hm Hc Hg. rewrite (run_lookup_found w rel c) by done.
  by rewrite stamped_unmarked.
Qed.



End Frame.

(** ** Further properties of the loop *)

Section LoopFacts.

Variable cwd : path.

(** In the branch that writes, the three commands on [temp_file] amount
    to one update of the page and the removal of the scratch file. *)
Lemma body_writes (st : state) (file : path) :
  cwd ++ file ≠ scratch cwd →
  grep_q (cwd ++ file) (fs st) = false →
  fs (Plain.body cwd st file)
  = <[cwd ++ file := frontmatter (title_of (filename_of file))
                     +:+ Plain.cat (cwd ++ file) (fs st)]>
      (delete (scratch cwd) (fs st)).
Proof.
  intros Hne Hg. unfold Plain.body. rewrite Hg. simpl. fold (scratch cwd).
  unfold Plain.mv, Plain.redirect_append, Plain.redirect, Plain.cat.
  rewrite !lookup_insert_eq. simpl.
  rewrite lookup_insert_ne by done.
  by rewrite !delete_insert_eq.
Qed.








End LoopFacts.

(** ** Further properties of whole runs *)

Section RunFacts.




End RunFacts.

(** ** The run in which no command fails *)


(** A page that [find] prints and in which no line begins with three
    hyphens holds after a run the generated block for the title of its
    file name, followed by what it held before. *)
Lemma plain_run_prepends_block (w : world) (rel : path) (c : string) :
  name_matches (basename rel) = true →
  files w !! (cd w ++ rel) = Some c →
  grep_dashes c = false →
  files (Plain.run w) !! (cd w ++ rel)
  = Some (frontmatter (title_of (filename_of rel)) +:+ c).
Proof. apply run_adds_frontmatter. Qed.







(** When every file of [find] passes the check, the run changes
    nothing, an existing [temp_file] included, and prints only the
    closing line. *)
Lemma plain_run_without_work (w : world) :
  forallb (λ rel, grep_q (cd w ++ rel) (files w)) (find (cd w) (files w))
    = true →
  Plain.script w = (w, [completed]).
Proof.
  intros H. unfold Plain.script. rewrite loop_skip.
  - by destruct w.
  - intros r Hr%list_elem_of_In. cbn [fs].
    by apply (proj1 (forallb_forall _ _) H).
Qed.

(** One turn of the loop in the branch that writes: the commands
    [echo > temp_file], [cat >> temp_file] and [mv temp_file] together
    put the block and the old content into the page and leave no scratch
    file; nothing else changes. *)
Lemma plain_turn_rewrites_page (cwd : path) (st : state) (file : path) :
  cwd ++ file ≠ scratch cwd →
  grep_q (cwd ++ file) (fs st) = false →
  fs (Plain.body cwd st file)
  = <[cwd ++ file := frontmatter (title_of (filename_of file))
                     +:+ Plain.cat (cwd ++ file) (fs st)]>
      (delete (scratch cwd) (fs st)).
Proof. apply body_writes. Qed.



(** ** The commands on a tree with plain names *)

Section Dirs.


Lemma is_prefix_iff (p q : path) : is_prefix p q = true ↔ ∃ t, q = p ++ t.
Proof.
  unfold is_prefix. destruct (below p q) as [t|] eqn:E.
  - apply below_Some in E as ->. split; [eauto | done].
  - split; [done|]. intros (t & ->). by rewrite below_app in E.
Qed.





End Dirs.

Section PlainText.














End PlainText.

Section Turn.

Variable cwd : path.













(** *** The loop on plain paths *)




End Turn.

(** ** Runs on trees with plain names *)

Section PlainRuns.







End PlainRuns.
(** The scenario of the specification: [a.mdx] gains the block with the
    title [A] and keeps [hello] after it, [b.md] is untouched, and one
    line is printed for each rewritten file. *)
Example scenario_a_b :
  files (run sample) !! docs ["a.mdx"] = Some (frontmatter "A" +:+ "hello")
  ∧ files (run sample) !! docs ["b.md"] = files sample !! docs ["b.md"]
  ∧ (script sample).2
    = ["Added frontmatter to ./a.mdx";
       "Added frontmatter to ./01_getting-started/empty.md";
       completed].
Proof. repeat split; vm_compute; reflexivity. Qed.

(** ** The claims about the header check *)

(** C1 (the code departs from the claim). The page [notes.md] below the
    content directory holds a horizontal rule in its second line and does
    not begin with the delimiter: its first line is [Intro]. The claim
    asks that a run puts the generated block in front of it; the run
    leaves the file as it was and prints no line for it, because
    [grep -q "^---"] is satisfied by the rule in the second line. *)
Theorem rule_page_gets_no_frontmatter :
  files rule_page !! docs ["notes.md"] = Some rule_text
  ∧ head (lines rule_text) = Some "Intro"
  ∧ files (run rule_page) !! docs ["notes.md"] = Some rule_text
  ∧ (script rule_page).2 = [completed].
Proof. repeat split; vm_compute; reflexivity. Qed.

(** C2 (the code departs from the claim). The check of the script is not
    decided by the first line, and does not ask for a line of three
    hyphens only: it succeeds on the text whose first line is [Intro] and
    whose second line is a rule, and on the text whose first line is
    [----]; in both cases the turn of the loop leaves the state as it
    was, where the claim asks for the synthesis. *)
Theorem header_check_reads_every_line :
  head (lines rule_text) = Some "Intro"
  ∧ grep_dashes rule_text = true
  ∧ body docs_dir (State (files rule_page) []) ["notes.md"]
    = State (files rule_page) []
  ∧ head (lines ("----" +:+ nl +:+ "More" +:+ nl)) = Some "----"
  ∧ grep_dashes ("----" +:+ nl +:+ "More" +:+ nl) = true
  ∧ body docs_dir (State (files long_rule_page) []) ["rule.md"]
    = State (files long_rule_page) [].
Proof. repeat split; vm_compute; reflexivity. Qed.


(** ** The claims about single pages *)

Section BlockText.




End BlockText.








(** The turn for an empty page with a backslash in its name works on
    another path: the page stays empty, and a file of the name without
    the backslash is made. *)
Example empty_backslash_page_stays_empty :
  files (run empty_backslash_page) !! docs ["a" +:+ bs +:+ "b.md"] = Some ""
  ∧ files empty_backslash_page !! docs ["ab.md"] = None
  ∧ files (run empty_backslash_page) !! docs ["ab.md"]
    = Some (frontmatter "Ab").
Proof. repeat split; vm_compute; reflexivity. Qed.



(** ** The claims about whole runs *)




(** C6 (the code departs from the claim). Started where
    [src/content/docs/vue] does not exist, the script is not stopped by
    the failure of [cd]: [find] walks the directory the script was
    started in, and the [README.md] found there is rewritten. *)
Theorem missing_directory_is_not_fatal :
  docs_present elsewhere = false
  ∧ files (run elsewhere) !! ["README.md"]
    = Some (frontmatter "README" +:+ "# Project" +:+ nl)
  ∧ (script elsewhere).2 = ["Added frontmatter to ./README.md"; completed].
Proof. repeat split; vm_compute; reflexivity. Qed.





(** ** Further properties of runs on trees with plain names *)




















